(** * SelectiveFactory: a statically registered selective factory

    Shallow embedding of [SelectiveFactory.hpp].  The class template

      template <typename Base, typename Criterion, typename... Input>
      class SelectiveFactory

    keeps one static pointer [registeredFuns] to a
    [std::map<Predicate,Factory>] and offers three static member functions:
    [registerPtr], [Produce] and [ProduceOne].  All three start with a call
    of [create], which allocates the map when the pointer is still null. *)

From Stdlib Require Import List PArith Arith Bool Lia Sorted Permutation.
Import ListNotations.

(** ** Function pointers and owning pointers *)

(** A pointer to a function is the address of its code.  The null function
    pointer is not the address of any function, hence [positive]. *)
Abbreviation address := positive (only parsing).

(** [std::unique_ptr<T>]: either null or the owner of one object. *)
Definition unique_ptr (T : Type) := option T.

Definition nullptr {T : Type} : unique_ptr T := None.

(** One instantiation of the template together with the functions of the
    program that its function pointers can designate: a [Predicate] points
    to a function from [Criterion] to [bool], a [Factory] to a function from
    [Input...] to [std::unique_ptr<Base>].  The parameter pack [Input...] is
    one type here, the tuple of the arguments.  Calling through a pointer
    runs the code at that address.  Predicates and factories are pure, as
    the specification requires of them: what they return is a function of
    their arguments, and they do not touch the factory. *)
Class Instantiation := {
  Base : Type;
  Criterion : Type;
  Input : Type;
  predicate_code : address -> Criterion -> bool;
  factory_code : address -> Input -> unique_ptr Base
}.

(** ** [std::map] with function pointers as keys *)

(** A [std::map<K,V>] is observed through its in-order sequence of
    (key, value) pairs: iteration visits the pairs by ascending key, keys are
    unique, and [insert] of a key that is present changes nothing.  The keys
    are compared with [std::less], which on pointers is a strict total
    order: the order of the addresses. *)
Module StdMap.

Section Map.

Variable V : Type.

Definition t := list (address * V).

Definition empty : t := [].

(** [m.insert(std::make_pair(k,v))]. *)
Fixpoint insert (kv : address * V) (m : t) : t :=
  match m with
  | [] => [kv]
  | kv' :: m' =>
      if (fst kv <? fst kv')%positive then kv :: m
      else if (fst kv' <? fst kv)%positive then kv' :: insert kv m'
      else m
  end.

(** [m.find(k)], as the mapped value when the key is present. *)
Fixpoint find (k : address) (m : t) : option V :=
  match m with
  | [] => None
  | kv :: m' => if (fst kv =? k)%positive then Some (snd kv) else find k m'
  end.

(** [m.count(k)]. *)
Definition count (k : address) (m : t) : nat :=
  length (filter (fun kv => (fst kv =? k)%positive) m).

Definition keys (m : t) : list address := map fst m.

(** The representation invariant: keys strictly ascending. *)
Definition ordered (m : t) : Prop := StronglySorted Pos.lt (keys m).

End Map.

Arguments insert {V} kv m.
Arguments find {V} k m.
Arguments count {V} k m.
Arguments keys {V} m.
Arguments ordered {V} m.

End StdMap.

(** ** The state of the program *)

(** [Predicate] and [Factory] are typedefs of function pointer types. *)
Abbreviation Predicate := address (only parsing).
Abbreviation Factory := address (only parsing).

(** [typedef std::map<Predicate,Factory> FunctionContainer]. *)
Definition FunctionContainer := StdMap.t Factory.

Section Program.

Context {I : Instantiation}.

(** The calls the factory makes through the registered pointers. *)
Inductive call :=
| CallPredicate (p : Predicate) (criterion : Criterion)
| CallFactory (f : Factory) (value : Input).

(** [registeredFuns] is the static pointer (None when null);
    [constructions] counts the executions of [new FunctionContainer];
    [calls] is the sequence of calls made into registered functions. *)
Record state := {
  registeredFuns : option FunctionContainer;
  constructions : nat;
  calls : list call
}.

(** Member initialization: [registeredFuns=nullptr]. *)
Definition initial : state :=
  {| registeredFuns := None; constructions := 0; calls := [] |}.

(** The entries a state holds; a null [registeredFuns] holds none. *)
Definition entries (s : state) : FunctionContainer :=
  match registeredFuns s with
  | None => StdMap.empty Factory
  | Some m => m
  end.

(** Computations on the state.  [None] is undefined behaviour: the
    dereference of a null [registeredFuns]. *)
Definition M (A : Type) := state -> option (A * state).

Definition ret {A : Type} (a : A) : M A := fun s => Some (a, s).

Definition bind {A B : Type} (m : M A) (k : A -> M B) : M B :=
  fun s =>
    match m s with
    | None => None
    | Some (a, s') => k a s'
    end.

End Program.

Arguments call : clear implicits.
Arguments state : clear implicits.
Arguments M : clear implicits.

Declare Scope factory_scope.
Delimit Scope factory_scope with factory.
Notation "x <- m ;; k" := (bind m (fun x => k))
  (at level 61, m at next level, right associativity) : factory_scope.
Notation "m ;; k" := (bind m (fun _ => k))
  (at level 61, right associativity) : factory_scope.
Open Scope factory_scope.

Section Operations.

Context {I : Instantiation}.

(** The dereference of [registeredFuns]. *)
Definition deref : M I FunctionContainer :=
  fun s =>
    match registeredFuns s with
    | None => None
    | Some m => Some (m, s)
    end.

(** [registeredFuns->insert(kv)]. *)
Definition insert_registered (kv : Predicate * Factory) : M I unit :=
  fun s =>
    match registeredFuns s with
    | None => None
    | Some m =>
        Some (tt, {| registeredFuns := Some (StdMap.insert kv m);
                     constructions := constructions s;
                     calls := calls s |})
    end.

(** [(f.first)(criterion)]. *)
Definition invoke_predicate (p : Predicate) (criterion : Criterion) : M I bool :=
  fun s =>
    Some (predicate_code p criterion,
          {| registeredFuns := registeredFuns s;
             constructions := constructions s;
             calls := calls s ++ [CallPredicate p criterion] |}).

(** [(f.second)(value...)]. *)
Definition invoke_factory (f : Factory) (value : Input) : M I (unique_ptr Base) :=
  fun s =>
    Some (factory_code f value,
          {| registeredFuns := registeredFuns s;
             constructions := constructions s;
             calls := calls s ++ [CallFactory f value] |}).

(** [if(!registeredFuns) registeredFuns=new FunctionContainer;] *)
Definition create : M I unit :=
  fun s =>
    match registeredFuns s with
    | None =>
        Some (tt, {| registeredFuns := Some (StdMap.empty Factory);
                     constructions := S (constructions s);
                     calls := calls s |})
    | Some _ => Some (tt, s)
    end.

Definition registerPtr (predicate : Predicate) (factory : Factory) : M I unit :=
  create ;;
  insert_registered (predicate, factory).

(** The loop of [Produce] over the pairs still to visit, [result] being the
    vector built so far. *)
Fixpoint Produce_loop (fs : FunctionContainer) (criterion : Criterion)
  (value : Input) (result : list (unique_ptr Base))
  : M I (list (unique_ptr Base)) :=
  match fs with
  | [] => ret result
  | f :: fs' =>
      b <- invoke_predicate (fst f) criterion ;;
      if b then
        o <- invoke_factory (snd f) value ;;
        Produce_loop fs' criterion value (result ++ [o])
      else Produce_loop fs' criterion value result
  end.

Definition Produce (criterion : Criterion) (value : Input)
  : M I (list (unique_ptr Base)) :=
  create ;;
  fs <- deref ;;
  Produce_loop fs criterion value [].

(** The loop of [ProduceOne]; falling out of it returns the null pointer. *)
Fixpoint ProduceOne_loop (fs : FunctionContainer) (criterion : Criterion)
  (value : Input) : M I (unique_ptr Base) :=
  match fs with
  | [] => ret nullptr
  | f :: fs' =>
      b <- invoke_predicate (fst f) criterion ;;
      if b then invoke_factory (snd f) value
      else ProduceOne_loop fs' criterion value
  end.

Definition ProduceOne (criterion : Criterion) (value : Input)
  : M I (unique_ptr Base) :=
  create ;;
  fs <- deref ;;
  ProduceOne_loop fs criterion value.

(** ** Sequences of operations on the factory *)

Inductive operation :=
| Register (predicate : Predicate) (factory : Factory)
| QueryAll (criterion : Criterion) (value : Input)
| QueryOne (criterion : Criterion) (value : Input).

Definition perform (op : operation) : M I unit :=
  match op with
  | Register p f => registerPtr p f
  | QueryAll c v => _ <- Produce c v ;; ret tt
  | QueryOne c v => _ <- ProduceOne c v ;; ret tt
  end.

Fixpoint run (ops : list operation) : M I unit :=
  match ops with
  | [] => ret tt
  | op :: ops' => perform op ;; run ops'
  end.

(** The registrations among a sequence of operations, in the order made. *)
Fixpoint registrations (ops : list operation) : list (Predicate * Factory) :=
  match ops with
  | [] => []
  | Register p f :: ops' => (p, f) :: registrations ops'
  | _ :: ops' => registrations ops'
  end.

End Operations.

Arguments operation : clear implicits.

(** ** What the loops compute *)

Section Results.

Context {I : Instantiation}.

(** An entry matches a criterion when its predicate holds for it. *)
Definition matches (criterion : Criterion) (e : Predicate * Factory) : bool :=
  predicate_code (fst e) criterion.

(** The object an entry's factory makes. *)
Definition product (value : Input) (e : Predicate * Factory) : unique_ptr Base :=
  factory_code (snd e) value.

(** The calls one round of either loop makes for an entry that is visited. *)
Definition visit (criterion : Criterion) (value : Input)
  (e : Predicate * Factory) : list (call I) :=
  CallPredicate (fst e) criterion ::
  (if matches criterion e then [CallFactory (snd e) value] else []).

(** The calls of the loop of [ProduceOne], which leaves at the first match. *)
Fixpoint visits_until_match (criterion : Criterion) (value : Input)
  (fs : FunctionContainer) : list (call I) :=
  match fs with
  | [] => []
  | e :: fs' =>
      visit criterion value e ++
      (if matches criterion e then [] else visits_until_match criterion value fs')
  end.

(** The state once [create] has run. *)
Definition created (s : state I) : state I :=
  {| registeredFuns := Some (entries s);
     constructions :=
       match registeredFuns s with
       | None => S (constructions s)
       | Some _ => constructions s
       end;
     calls := calls s |}.

(** The state once the calls [cs] have been made. *)
Definition log (cs : list (call I)) (s : state I) : state I :=
  {| registeredFuns := registeredFuns s;
     constructions := constructions s;
     calls := calls s ++ cs |}.

(** The number of calls of the predicate at address [p] in a log. *)
Definition predicate_calls (p : Predicate) (cs : list (call I)) : nat :=
  length (filter (fun c => match c with
                           | CallPredicate q _ => (q =? p)%positive
                           | CallFactory _ _ => false
                           end) cs).

(** The map after the insertion of a list of pairs, one after the other. *)
Definition insert_all (regs : list (Predicate * Factory))
  (m : FunctionContainer) : FunctionContainer :=
  fold_left (fun m e => StdMap.insert e m) regs m.

(** The factory registered first for a predicate in a list of registrations. *)
Definition first_registered (p : Predicate) (regs : list (Predicate * Factory))
  : option Factory :=
  option_map snd (List.find (fun e => (fst e =? p)%positive) regs).

(** ** The registry as the specification words it

    The specification describes the entries as kept in registration order,
    a registration under a predicate already present being absorbed.  The
    next definitions follow those words, for comparison with the code. *)

Definition absorb (acc : list (Predicate * Factory)) (e : Predicate * Factory)
  : list (Predicate * Factory) :=
  if existsb (Pos.eqb (fst e)) (map fst acc) then acc else acc ++ [e].

Definition registration_order (regs : list (Predicate * Factory))
  : list (Predicate * Factory) :=
  fold_left absorb regs [].

(** ProduceFirst as specified: the first match in registration order. *)
Definition spec_ProduceFirst (regs : list (Predicate * Factory))
  (criterion : Criterion) (value : Input) : unique_ptr Base :=
  match List.find (matches criterion) (registration_order regs) with
  | Some e => product value e
  | None => nullptr
  end.

(** ProduceAll as specified: the matches in registration order. *)
Definition spec_ProduceAll (regs : list (Predicate * Factory))
  (criterion : Criterion) (value : Input) : list (unique_ptr Base) :=
  map (product value) (filter (matches criterion) (registration_order regs)).

End Results.

(** ** A small program using the factory

    Shapes are made from a size; the criterion is a number of sides.  The
    predicates of the program live at addresses 1 to 3, its factories at
    addresses 4 to 6. *)
Module Shapes.

Inductive shape :=
| Circle (radius : nat)
| Square (side : nat).

Definition predicate (p : address) (sides : nat) : bool :=
  match p with
  | 1%positive => sides <=? 4
  | 2%positive => sides =? 4
  | 3%positive => sides =? 0
  | _ => false
  end.

Definition factory (f : address) (size : nat) : unique_ptr shape :=
  match f with
  | 4%positive => Some (Circle size)
  | 5%positive => Some (Square size)
  | _ => nullptr
  end.

Definition shapes : Instantiation :=
  {| Base := shape;
     Criterion := nat;
     Input := nat;
     predicate_code := predicate;
     factory_code := factory |}.

(** The state once the predicate for squares has been registered with the
    factory of squares. *)
Definition squares : state shapes :=
  {| registeredFuns := Some [(2, 5)%positive];
     constructions := 1;
     calls := [] |}.

(** The state once the predicate for squares has been registered with a
    factory that returns the null pointer. *)
Definition nothings : state shapes :=
  {| registeredFuns := Some [(2, 6)%positive];
     constructions := 1;
     calls := [] |}.

(** The result of a computation started in the initial state. *)
Definition result_of {A : Type} (m : M shapes A) : option A :=
  option_map fst (m initial).

(** The result of [query] once the operations [ops] have run. *)
Definition after {A : Type} (ops : list (operation shapes)) (query : M shapes A)
  : option A :=
  result_of (run ops ;; query).

End Shapes.

(** ** Observations on runs *)

Section Observations.

Context {I : Instantiation}.

(** The number of calls of factories in a log. *)
Definition factory_calls (cs : list (call I)) : nat :=
  length (filter (fun c => match c with
                           | CallPredicate _ _ => false
                           | CallFactory _ _ => true
                           end) cs).

(** The calls of the predicates of the entries [fs], in their order. *)
Definition asked (criterion : Criterion) (fs : FunctionContainer)
  : list (call I) :=
  map (fun e => CallPredicate (fst e) criterion) fs.

(** The value a computation returns, the state it leaves apart. *)
Definition returned {A : Type} (r : option (A * state I)) : option A :=
  option_map fst r.

(** The operations that make the registrations [regs], one after the other. *)
Definition registering (regs : list (Predicate * Factory))
  : list (operation I) :=
  map (fun e => Register (fst e) (snd e)) regs.

End Observations.

(** A state of the program of shapes: the predicate for at most four sides
    is registered with the factory of circles, the predicate for squares
    with the factory of squares. *)
Module Catalogue.

Definition both : state Shapes.shapes :=
  {| registeredFuns := Some [(1, 4); (2, 5)]%positive;
     constructions := 1;
     calls := [] |}.

End Catalogue.

(** * Properties *)

(** ** The map *)

Module StdMapFacts.

Import StdMap.

Section Facts.

Variable V : Type.

Implicit Types (m : t V) (kv : address * V) (k : address).

Lemma keys_insert kv m k :
  In k (keys (insert kv m)) <-> k = fst kv \/ In k (keys m).
Proof.
  induction m as [|kv' m IH]; simpl.
  - intuition.
  - destruct (Pos.ltb_spec (fst kv) (fst kv')); simpl.
    + intuition.
    + destruct (Pos.ltb_spec (fst kv') (fst kv)); simpl.
      * rewrite IH. intuition.
      * assert (fst kv = fst kv') by lia. intuition congruence.
Qed.

Lemma ordered_tail kv m : ordered (kv :: m) -> ordered m.
Proof.
  unfold ordered; simpl; intros H.
  now apply StronglySorted_inv in H.
Qed.

Lemma ordered_head kv m k :
  ordered (kv :: m) -> In k (keys m) -> (fst kv < k)%positive.
Proof.
  unfold ordered; simpl; intros H Hk.
  apply StronglySorted_inv in H as [_ H].
  rewrite Forall_forall in H. auto.
Qed.

Lemma ordered_cons kv m :
  ordered m -> (forall k, In k (keys m) -> (fst kv < k)%positive) ->
  ordered (kv :: m).
Proof.
  unfold ordered; simpl; intros Hm Hlt.
  constructor; [assumption | now apply Forall_forall].
Qed.

Lemma insert_ordered kv m : ordered m -> ordered (insert kv m).
Proof.
  induction m as [|kv' m IH]; simpl; intros Hm.
  - apply ordered_cons; [assumption | simpl; tauto].
  - destruct (Pos.ltb_spec (fst kv) (fst kv')).
    + apply ordered_cons; [assumption|].
      simpl; intros k [<-|Hk]; [assumption|].
      pose proof (ordered_head _ _ _ Hm Hk). lia.
    + destruct (Pos.ltb_spec (fst kv') (fst kv)); [|assumption].
      apply ordered_cons.
      * apply IH. eapply ordered_tail; eassumption.
      * intros k Hk. apply keys_insert in Hk as [->|Hk]; [assumption|].
        eapply ordered_head; eassumption.
Qed.

Lemma ordered_NoDup m : ordered m -> NoDup (keys m).
Proof.
  induction m as [|kv m IH]; simpl; intros Hm.
  - constructor.
  - constructor.
    + intros Hk. pose proof (ordered_head _ _ _ Hm Hk). lia.
    + apply IH. eapply ordered_tail; eassumption.
Qed.

(** Inserting under a key that is present changes nothing. *)
Lemma insert_present kv m :
  ordered m -> In (fst kv) (keys m) -> insert kv m = m.
Proof.
  induction m as [|kv' m IH]; simpl; intros Hm Hk.
  - contradiction.
  - destruct (Pos.ltb_spec (fst kv) (fst kv')).
    + destruct Hk as [Hk|Hk]; [lia|].
      pose proof (ordered_head _ _ _ Hm Hk). lia.
    + destruct (Pos.ltb_spec (fst kv') (fst kv)); [|reflexivity].
      f_equal. apply IH.
      * eapply ordered_tail; eassumption.
      * destruct Hk as [Hk|Hk]; [lia|assumption].
Qed.

(** Inserting under a new key adds the pair and moves no other. *)
Lemma insert_absent kv m :
  ~ In (fst kv) (keys m) -> Permutation (insert kv m) (kv :: m).
Proof.
  induction m as [|kv' m IH]; simpl; intros Hk.
  - reflexivity.
  - destruct (Pos.ltb_spec (fst kv) (fst kv')); [reflexivity|].
    destruct (Pos.ltb_spec (fst kv') (fst kv)).
    + rewrite IH by tauto. apply perm_swap.
    + exfalso. apply Hk. left. lia.
Qed.

Lemma find_None k m : find k m = None <-> ~ In k (keys m).
Proof.
  induction m as [|kv m IH]; simpl.
  - tauto.
  - destruct (Pos.eqb_spec (fst kv) k).
    + split; [discriminate | tauto].
    + rewrite IH. tauto.
Qed.

Lemma find_Some k m v : find k m = Some v -> In (k, v) m.
Proof.
  induction m as [|kv m IH]; simpl; [discriminate|].
  destruct (Pos.eqb_spec (fst kv) k) as [<-|].
  - intros [= <-]. left. now destruct kv.
  - auto.
Qed.

Lemma In_find k v m : ordered m -> In (k, v) m -> find k m = Some v.
Proof.
  induction m as [|kv m IH]; simpl; intros Hm Hin; [contradiction|].
  destruct Hin as [->|Hin]; simpl.
  - now rewrite Pos.eqb_refl.
  - destruct (Pos.eqb_spec (fst kv) k) as [<-|].
    + pose proof (ordered_head _ _ (fst kv) Hm (in_map fst _ _ Hin)) as Hlt.
      simpl in Hlt. lia.
    + apply IH; [|assumption]. eapply ordered_tail; eassumption.
Qed.

(** [insert] never replaces the value a key is mapped to. *)
Lemma find_insert k kv m :
  ordered m ->
  find k (insert kv m) =
    match find k m with
    | Some v => Some v
    | None => if (fst kv =? k)%positive then Some (snd kv) else None
    end.
Proof.
  intros Hm. destruct (in_dec Pos.eq_dec (fst kv) (keys m)) as [Hin|Hout].
  - rewrite insert_present by assumption.
    destruct (find k m) eqn:Hf; [reflexivity|].
    destruct (Pos.eqb_spec (fst kv) k) as [<-|]; [|reflexivity].
    apply find_None in Hf. contradiction.
  - destruct (find k m) as [v|] eqn:Hf.
    + apply In_find; [now apply insert_ordered|].
      apply (Permutation_in _ (Permutation_sym (insert_absent _ _ Hout))).
      right. now apply find_Some.
    + destruct (Pos.eqb_spec (fst kv) k) as [<-|Hne].
      * apply In_find; [now apply insert_ordered|].
        apply (Permutation_in _ (Permutation_sym (insert_absent _ _ Hout))).
        left. now destruct kv.
      * apply find_None. rewrite keys_insert. apply find_None in Hf.
        intros [->|]; tauto.
Qed.

Lemma count_absent k m : ~ In k (keys m) -> count k m = 0.
Proof.
  unfold count. induction m as [|kv m IH]; simpl; intros Hk; [reflexivity|].
  destruct (Pos.eqb_spec (fst kv) k); [tauto|]. apply IH. tauto.
Qed.

(** A key of an ordered map is the key of exactly one pair. *)
Lemma count_present k m : ordered m -> In k (keys m) -> count k m = 1.
Proof.
  induction m as [|kv m IH]; simpl; intros Hm Hk; [contradiction|].
  unfold count; simpl.
  destruct (Pos.eqb_spec (fst kv) k) as [<-|Hne]; simpl.
  - f_equal. apply count_absent. intros Hin.
    pose proof (ordered_head _ _ _ Hm Hin). lia.
  - apply IH; [eapply ordered_tail; eassumption | tauto].
Qed.

End Facts.

End StdMapFacts.

(** ** The operations, one by one *)

Section Steps.

Context {I : Instantiation}.

Implicit Types (s : state I) (fs : FunctionContainer).

Lemma log_nil s : log [] s = s.
Proof. destruct s; unfold log; simpl. now rewrite app_nil_r. Qed.

Lemma log_log cs1 cs2 s : log cs2 (log cs1 s) = log (cs1 ++ cs2) s.
Proof. unfold log; simpl. now rewrite app_assoc. Qed.

Lemma entries_log cs s : entries (log cs s) = entries s.
Proof. reflexivity. Qed.

Lemma entries_created s : entries (created s) = entries s.
Proof. reflexivity. Qed.

Lemma created_created s : created (created s) = created s.
Proof. reflexivity. Qed.

Lemma create_spec s : create s = Some (tt, created s).
Proof. destruct s as [[m|] n cs]; reflexivity. Qed.

(** After [create] the dereference is defined. *)
Lemma deref_created s : deref (created s) = Some (entries s, created s).
Proof. reflexivity. Qed.

Lemma registerPtr_spec p f s :
  registerPtr p f s =
    Some (tt, {| registeredFuns := Some (StdMap.insert (p, f) (entries s));
                 constructions := constructions (created s);
                 calls := calls s |}).
Proof. unfold registerPtr, bind. now rewrite create_spec. Qed.

Lemma Produce_loop_spec criterion value fs : forall result s,
  Produce_loop fs criterion value result s =
    Some (result ++ map (product value) (filter (matches criterion) fs),
          log (flat_map (visit criterion value) fs) s).
Proof.
  induction fs as [|e fs IH]; intros result s; simpl.
  - unfold ret. now rewrite app_nil_r, log_nil.
  - unfold bind, invoke_predicate, visit.
    change (predicate_code (fst e) criterion) with (matches criterion e).
    destruct (matches criterion e) eqn:Hp; simpl.
    + unfold invoke_factory. rewrite IH. f_equal. f_equal.
      * rewrite <- app_assoc; reflexivity.
      * unfold log; simpl. f_equal. rewrite <- !app_assoc; reflexivity.
    + rewrite IH. f_equal. f_equal.
      unfold log; simpl. f_equal. rewrite <- !app_assoc; reflexivity.
Qed.

Lemma ProduceOne_loop_spec criterion value fs : forall s,
  ProduceOne_loop fs criterion value s =
    Some (match List.find (matches criterion) fs with
          | Some e => product value e
          | None => nullptr
          end,
          log (visits_until_match criterion value fs) s).
Proof.
  induction fs as [|e fs IH]; intros s; simpl.
  - unfold ret. now rewrite log_nil.
  - unfold bind, invoke_predicate, visit.
    change (predicate_code (fst e) criterion) with (matches criterion e).
    destruct (matches criterion e) eqn:Hp; simpl.
    + unfold invoke_factory, log, product; simpl.
      rewrite <- app_assoc; reflexivity.
    + rewrite IH. f_equal. f_equal. unfold log; simpl.
      f_equal. rewrite <- !app_assoc; reflexivity.
Qed.

Lemma Produce_spec criterion value s :
  Produce criterion value s =
    Some (map (product value) (filter (matches criterion) (entries s)),
          log (flat_map (visit criterion value) (entries s)) (created s)).
Proof.
  unfold Produce, bind. rewrite create_spec, deref_created.
  now rewrite Produce_loop_spec.
Qed.

Lemma ProduceOne_spec criterion value s :
  ProduceOne criterion value s =
    Some (match List.find (matches criterion) (entries s) with
          | Some e => product value e
          | None => nullptr
          end,
          log (visits_until_match criterion value (entries s)) (created s)).
Proof.
  unfold ProduceOne, bind. rewrite create_spec, deref_created.
  now rewrite ProduceOne_loop_spec.
Qed.

(** What one operation does to the entries, to the pointer and to the
    count of constructions. *)
Lemma perform_spec op s :
  exists s',
    perform op s = Some (tt, s') /\
    entries s' = insert_all (registrations [op]) (entries s) /\
    registeredFuns s' = Some (entries s') /\
    constructions s' = constructions (created s).
Proof.
  destruct op as [p f|c v|c v]; simpl; unfold bind.
  - rewrite registerPtr_spec. eexists; split; [reflexivity|]. now simpl.
  - rewrite Produce_spec. eexists; split; [reflexivity|]. now simpl.
  - rewrite ProduceOne_spec. eexists; split; [reflexivity|]. now simpl.
Qed.

Lemma constructions_created_twice s s' :
  registeredFuns s' = Some (entries s') ->
  constructions (created s') = constructions s'.
Proof. unfold created; simpl. now intros ->. Qed.

Lemma run_spec ops : forall s,
  exists s',
    run ops s = Some (tt, s') /\
    entries s' = insert_all (registrations ops) (entries s) /\
    (ops <> [] -> registeredFuns s' = Some (entries s')) /\
    constructions s' =
      match ops with
      | [] => constructions s
      | _ :: _ => constructions (created s)
      end.
Proof.
  induction ops as [|op ops IH]; intros s; simpl.
  - exists s. repeat split; tauto.
  - destruct (perform_spec op s) as (s1 & Hrun & Hent & Hptr & Hcon).
    destruct (IH s1) as (s2 & Hrun2 & Hent2 & Hptr2 & Hcon2).
    exists s2. unfold bind. rewrite Hrun. split; [assumption|].
    split; [|split].
    + rewrite Hent2, Hent. unfold insert_all.
      destruct op; reflexivity.
    + intros _. destruct ops as [|op' ops].
      * simpl in Hrun2. injection Hrun2 as <-. assumption.
      * apply Hptr2. discriminate.
    + rewrite Hcon2. destruct ops; [assumption|].
      rewrite constructions_created_twice; assumption.
Qed.

End Steps.

(** ** The entries after a sequence of operations *)

Section Registration.

Context {I : Instantiation}.

Implicit Types (m : FunctionContainer) (regs : list (address * address)).

Lemma insert_all_ordered regs : forall m,
  StdMap.ordered m -> StdMap.ordered (insert_all regs m).
Proof.
  induction regs as [|e regs IH]; intros m Hm; simpl; [assumption|].
  apply IH. now apply StdMapFacts.insert_ordered.
Qed.

Lemma absorb_test (e : address * address) (acc : list (address * address)) :
  existsb (Pos.eqb (fst e)) (map fst acc) = true <-> In (fst e) (map fst acc).
Proof.
  rewrite existsb_exists. split.
  - intros (k & Hk & Heq). apply Pos.eqb_eq in Heq. now subst.
  - intros Hk. exists (fst e). split; [assumption | apply Pos.eqb_refl].
Qed.

(** The map holds the entries of the registration order, by ascending key. *)
Lemma insert_all_absorb regs : forall m acc,
  StdMap.ordered m -> Permutation m acc ->
  Permutation (insert_all regs m) (fold_left absorb regs acc).
Proof.
  induction regs as [|e regs IH]; intros m acc Hm Hperm; simpl; [assumption|].
  apply IH; [now apply StdMapFacts.insert_ordered|].
  assert (Hkeys : Permutation (StdMap.keys m) (map fst acc))
    by (now apply Permutation_map).
  unfold absorb. destruct (existsb _ _) eqn:Hex.
  - apply absorb_test in Hex.
    rewrite StdMapFacts.insert_present; [assumption..|].
    eapply Permutation_in; [symmetry|]; eassumption.
  - rewrite StdMapFacts.insert_absent.
    + rewrite Hperm. apply Permutation_cons_append.
    + intros Hin. apply (Permutation_in _ Hkeys) in Hin.
      apply absorb_test in Hin. congruence.
Qed.

(** The factory a predicate is mapped to is the one registered first. *)
Lemma find_insert_all p regs : forall m,
  StdMap.ordered m ->
  StdMap.find p (insert_all regs m) =
    match StdMap.find p m with
    | Some f => Some f
    | None => first_registered p regs
    end.
Proof.
  induction regs as [|e regs IH]; intros m Hm; simpl.
  - now destruct (StdMap.find p m).
  - rewrite IH by (now apply StdMapFacts.insert_ordered).
    rewrite StdMapFacts.find_insert by assumption.
    unfold first_registered; simpl.
    destruct (StdMap.find p m); [reflexivity|].
    now destruct (fst e =? p)%positive.
Qed.

Lemma ordered_empty : StdMap.ordered (StdMap.empty address).
Proof. constructor. Qed.

(** Every sequence of operations runs from the initial state, and leaves
    the registrations it holds in a map ordered by the predicates'
    addresses. *)
Lemma run_initial (ops : list (operation I)) :
  exists s,
    run ops initial = Some (tt, s) /\
    entries s = insert_all (registrations ops) (StdMap.empty address) /\
    StdMap.ordered (entries s) /\
    Permutation (entries s) (registration_order (registrations ops)).
Proof.
  destruct (run_spec ops initial) as (s & Hrun & Hent & _).
  exists s. split; [assumption|]. split; [assumption|].
  rewrite Hent. split.
  - apply insert_all_ordered, ordered_empty.
  - apply insert_all_absorb; [apply ordered_empty | reflexivity].
Qed.

Lemma filter_ordered (test : address * address -> bool) m :
  StdMap.ordered m -> StdMap.ordered (filter test m).
Proof.
  induction m as [|e m IH]; simpl; intros Hm; [assumption|].
  pose proof (StdMapFacts.ordered_tail _ _ _ Hm) as Htl.
  destruct (test e); [|auto].
  apply StdMapFacts.ordered_cons; [auto|].
  intros k Hk. apply (StdMapFacts.ordered_head _ _ _ _ Hm).
  unfold StdMap.keys in *. apply in_map_iff in Hk as (x & <- & Hx).
  apply filter_In in Hx as [Hx _]. now apply in_map.
Qed.

(** The first match of an ordered map is the match of least address. *)
Lemma find_least (test : address * address -> bool) m e :
  StdMap.ordered m -> List.find test m = Some e ->
  In e m /\ test e = true /\
  forall e', In e' m -> test e' = true -> (fst e <= fst e')%positive.
Proof.
  induction m as [|x m IH]; simpl; intros Hm Hfind; [discriminate|].
  pose proof (StdMapFacts.ordered_tail _ _ _ Hm) as Htl.
  destruct (test x) eqn:Hx.
  - injection Hfind as <-. repeat split; [now left | assumption |].
    intros e' [<-|Hin] _; [lia|].
    pose proof (StdMapFacts.ordered_head _ _ _ _ Hm (in_map fst _ _ Hin)). lia.
  - destruct (IH Htl Hfind) as (Hin & Ht & Hleast).
    repeat split; [now right | assumption |].
    intros e' [<-|Hin'] Ht'; [congruence | auto].
Qed.

Lemma find_none_iff (test : address * address -> bool) m :
  List.find test m = None <-> forall e, In e m -> test e = false.
Proof.
  split.
  - apply find_none.
  - induction m as [|x m IH]; simpl; intros H; [reflexivity|].
    rewrite (H x) by now left. apply IH. auto.
Qed.

End Registration.

(** ** Lists of calls *)

Section Calls.

Context {I : Instantiation}.

Implicit Types (fs : FunctionContainer) (cs : list (call I)).

Lemma predicate_calls_app p cs1 cs2 :
  predicate_calls p (cs1 ++ cs2) = predicate_calls p cs1 + predicate_calls p cs2.
Proof. unfold predicate_calls. now rewrite filter_app, length_app. Qed.

Lemma predicate_calls_visit p criterion value e :
  predicate_calls p (visit criterion value e) =
    if (fst e =? p)%positive then 1 else 0.
Proof.
  unfold predicate_calls, visit; simpl.
  destruct (fst e =? p)%positive; now destruct (matches criterion e).
Qed.

(** A full pass calls each predicate once for every entry it is the key of. *)
Lemma predicate_calls_pass p criterion value fs :
  predicate_calls p (flat_map (visit criterion value) fs) = StdMap.count p fs.
Proof.
  induction fs as [|e fs IH]; [reflexivity|].
  cbn [flat_map]. rewrite predicate_calls_app, predicate_calls_visit, IH.
  unfold StdMap.count; simpl. now destruct (fst e =? p)%positive.
Qed.

(** A pass that leaves at the first match calls no predicate more often. *)
Lemma predicate_calls_until_match p criterion value fs :
  predicate_calls p (visits_until_match criterion value fs) <= StdMap.count p fs.
Proof.
  induction fs as [|e fs IH]; [reflexivity|].
  cbn [visits_until_match]. rewrite predicate_calls_app, predicate_calls_visit.
  assert (Hcount : StdMap.count p (e :: fs) =
                   (if (fst e =? p)%positive then 1 else 0) + StdMap.count p fs)
    by (unfold StdMap.count; simpl; now destruct (fst e =? p)%positive).
  rewrite Hcount.
  destruct (matches criterion e); [|lia].
  change (predicate_calls p []) with 0. lia.
Qed.

Lemma count_le_1 p fs : StdMap.ordered fs -> StdMap.count p fs <= 1.
Proof.
  intros Hfs. destruct (in_dec Pos.eq_dec p (StdMap.keys fs)).
  - now rewrite StdMapFacts.count_present.
  - rewrite StdMapFacts.count_absent; [lia | assumption].
Qed.

End Calls.

(** ** The factory *)

Section Factory.

Context {I : Instantiation}.

Implicit Types (s : state I) (ops : list (operation I)).

Lemma Permutation_filter (test : address * address -> bool) l l' :
  Permutation l l' -> Permutation (filter test l) (filter test l').
Proof.
  induction 1 as [|x l l' _ IH|x y l|l l' l'' _ IH1 _ IH2]; simpl.
  - constructor.
  - destruct (test x); [now constructor | assumption].
  - destruct (test x), (test y); try reflexivity. apply perm_swap.
  - etransitivity; eassumption.
Qed.

Lemma keys_insert_all k regs : forall m,
  In k (StdMap.keys (insert_all regs m)) <->
  In k (map fst regs) \/ In k (StdMap.keys m).
Proof.
  induction regs as [|e regs IH]; intros m; simpl.
  - tauto.
  - rewrite IH, StdMapFacts.keys_insert. intuition.
Qed.

(** A registered predicate that holds is the predicate of an entry. *)
Lemma registered_match ops s criterion :
  entries s = insert_all (registrations ops) (StdMap.empty address) ->
  (exists e, In e (registrations ops) /\ matches criterion e = true) ->
  List.find (matches criterion) (entries s) <> None.
Proof.
  intros Hent (e & Hin & Hm) Hnone.
  assert (Hk : In (fst e) (StdMap.keys (entries s))).
  { rewrite Hent. apply keys_insert_all. left. now apply in_map. }
  apply in_map_iff in Hk as (e' & Heq & Hin').
  pose proof (find_none _ _ Hnone _ Hin') as Hm'.
  unfold matches in *. congruence.
Qed.

(** C1, as the code has it: after any sequence of operations, for a
    criterion that some registered predicate accepts, [ProduceOne] returns
    the object made by the factory of the accepting predicate of least
    address among the registered entries; the order of the registrations
    plays no part. *)
Theorem ProduceOne_least_address ops criterion value :
  (exists e, In e (registrations ops) /\ matches criterion e = true) ->
  exists s e s',
    run ops initial = Some (tt, s) /\
    ProduceOne criterion value s = Some (product value e, s') /\
    In e (registration_order (registrations ops)) /\
    matches criterion e = true /\
    forall e', In e' (registration_order (registrations ops)) ->
               matches criterion e' = true -> (fst e <= fst e')%positive.
Proof.
  intros Hsome.
  destruct (run_initial ops) as (s & Hrun & Hent & Hord & Hperm).
  pose proof (registered_match ops s criterion Hent Hsome) as Hfind.
  destruct (List.find (matches criterion) (entries s)) as [e|] eqn:He;
    [clear Hfind | congruence].
  destruct (find_least _ _ _ Hord He) as (Hin & Hm & Hleast).
  exists s, e. eexists. split; [assumption|]. split.
  - rewrite ProduceOne_spec, He. reflexivity.
  - split; [now apply (Permutation_in _ Hperm)|]. split; [assumption|].
    intros e' Hin' Hm'. apply Hleast; [|assumption].
    now apply (Permutation_in _ (Permutation_sym Hperm)).
Qed.

(** C2, as the code has it: after any sequence of operations, [Produce]
    returns one object for each registered entry whose predicate holds for
    the criterion and none for the others, the objects being in ascending
    order of the addresses of the entries' predicates. *)
Theorem Produce_ascending_addresses ops criterion value :
  exists s ms s',
    run ops initial = Some (tt, s) /\
    Produce criterion value s = Some (map (product value) ms, s') /\
    Permutation ms
      (filter (matches criterion) (registration_order (registrations ops))) /\
    StdMap.ordered ms.
Proof.
  destruct (run_initial ops) as (s & Hrun & Hent & Hord & Hperm).
  exists s, (filter (matches criterion) (entries s)). eexists.
  split; [assumption|]. split; [apply Produce_spec|]. split.
  - now apply Permutation_filter.
  - now apply filter_ordered.
Qed.

(** Whatever the addresses of two predicates that both hold, registering
    the one of higher address first makes both queries depart from the
    order of registration as soon as their factories make different
    objects. *)
Lemma registration_order_not_followed p q f g criterion value :
  (p < q)%positive ->
  predicate_code p criterion = true ->
  predicate_code q criterion = true ->
  factory_code f value <> factory_code g value ->
  exists s one all s1 s2,
    run [Register q g; Register p f] initial = Some (tt, s) /\
    ProduceOne criterion value s = Some (one, s1) /\
    Produce criterion value s = Some (all, s2) /\
    one <> spec_ProduceFirst [(q, g); (p, f)] criterion value /\
    all <> spec_ProduceAll [(q, g); (p, f)] criterion value.
Proof.
  intros Hlt Hp Hq Hfg.
  assert (Hltb : (p <? q)%positive = true) by now apply Pos.ltb_lt.
  assert (Hne : (p =? q)%positive = false) by (apply Pos.eqb_neq; lia).
  exists {| registeredFuns := Some [(p, f); (q, g)];
            constructions := 1; calls := [] |}.
  do 4 eexists. split; [|split; [|split]].
  - cbn. unfold registerPtr, bind, create, insert_registered; cbn.
    now rewrite Hltb.
  - apply ProduceOne_spec.
  - apply Produce_spec.
  - unfold spec_ProduceFirst, spec_ProduceAll, registration_order, absorb,
      matches, product; cbn.
    rewrite Hne, Hp, Hq; cbn. rewrite Hq, Hp; cbn.
    split; congruence.
Qed.

(** C3: in a state that holds an entry for a predicate, a further
    [registerPtr] with that predicate and any factory leaves the state as
    it is; the state holds exactly one entry for the predicate, and the
    predicate is mapped to the factory of its first registration. *)
Theorem registerPtr_duplicate_noop ops s predicate factory :
  run ops initial = Some (tt, s) ->
  In predicate (StdMap.keys (entries s)) ->
  exists first,
    first_registered predicate (registrations ops) = Some first /\
    registerPtr predicate factory s = Some (tt, s) /\
    StdMap.count predicate (entries s) = 1 /\
    StdMap.find predicate (entries s) = Some first.
Proof.
  intros Hrun Hin.
  destruct (run_spec ops initial) as (s0 & Hrun0 & Hent & Hptr & _).
  rewrite Hrun in Hrun0. injection Hrun0 as <-.
  assert (Hord : StdMap.ordered (entries s)).
  { rewrite Hent. apply insert_all_ordered, ordered_empty. }
  assert (Hfind : StdMap.find predicate (entries s) =
                  first_registered predicate (registrations ops)).
  { rewrite Hent. now rewrite find_insert_all by apply ordered_empty. }
  destruct (StdMap.find predicate (entries s)) as [first|] eqn:Hf.
  - exists first. split; [now symmetry|]. split; [|split].
    + rewrite registerPtr_spec, StdMapFacts.insert_present by assumption.
      assert (Hnonempty : ops <> []).
      { intros ->. simpl in Hent. rewrite Hent in Hin. contradiction. }
      specialize (Hptr Hnonempty).
      destruct s as [[m|] n cs]; [reflexivity | discriminate Hptr].
    + now apply StdMapFacts.count_present.
    + reflexivity.
  - apply StdMapFacts.find_None in Hf. contradiction.
Qed.

(** With no match the loops only call predicates. *)
Lemma no_match_pass criterion value (fs : FunctionContainer) :
  (forall e, In e fs -> matches criterion e = false) ->
  filter (matches criterion) fs = [] /\
  List.find (matches criterion) fs = None /\
  flat_map (visit criterion value) fs =
    map (fun e => CallPredicate (fst e) criterion) fs /\
  visits_until_match criterion value fs =
    map (fun e => CallPredicate (fst e) criterion) fs.
Proof.
  induction fs as [|e fs IH]; intros Hno.
  - repeat split.
  - destruct IH as (Hf & Hn & Hp & Hu); [intros; apply Hno; now right|].
    assert (He : matches criterion e = false) by (apply Hno; now left).
    assert (Hv : visit criterion value e = [CallPredicate (fst e) criterion])
      by (unfold visit; now rewrite He).
    cbn [filter List.find flat_map visits_until_match map].
    rewrite Hv, He, Hf, Hn, Hp, Hu. repeat split.
Qed.

(** C4: when no entry's predicate holds for the criterion, [Produce]
    returns the empty vector and [ProduceOne] the null pointer, which owns
    no object; both return, and all either has done is to create the map if
    it was missing and to call the predicates. *)
Theorem no_match_results s criterion value :
  (forall e, In e (entries s) -> matches criterion e = false) ->
  let s' := log (map (fun e => CallPredicate (fst e) criterion) (entries s))
                (created s) in
  Produce criterion value s = Some ([], s') /\
  ProduceOne criterion value s = Some (nullptr, s') /\
  forall b : Base, @nullptr Base <> Some b.
Proof.
  intros Hno s'.
  destruct (no_match_pass criterion value (entries s) Hno) as (Hf & Hn & Hp & Hu).
  rewrite Produce_spec, ProduceOne_spec, Hf, Hn, Hp, Hu.
  repeat split. discriminate.
Qed.

(** C5: in a query made after any sequence of operations the entries
    have different predicates, and the calls made are, entry after entry in
    the order of the map, one call of the entry's predicate followed, when
    and only when the predicate holds for the criterion, by one call of the
    entry's factory with the query's input; [Produce] does so for every
    entry, [ProduceOne] for the entries up to its first match and for no
    entry behind it.  So no predicate is called more than once, and no
    factory is called for an entry whose predicate returned false. *)
Theorem query_calls ops criterion value :
  exists s,
    run ops initial = Some (tt, s) /\
    NoDup (StdMap.keys (entries s)) /\
    (exists r s',
       Produce criterion value s = Some (r, s') /\
       calls s' = calls s ++ flat_map (visit criterion value) (entries s)) /\
    (exists r s',
       ProduceOne criterion value s = Some (r, s') /\
       calls s' = calls s ++ visits_until_match criterion value (entries s)) /\
    (forall p,
       predicate_calls p (flat_map (visit criterion value) (entries s)) <= 1 /\
       predicate_calls p (visits_until_match criterion value (entries s)) <= 1).
Proof.
  destruct (run_initial ops) as (s & Hrun & _ & Hord & _).
  exists s. split; [assumption|].
  split; [now apply StdMapFacts.ordered_NoDup|].
  split; [|split].
  - do 2 eexists. split; [apply Produce_spec|]. reflexivity.
  - do 2 eexists. split; [apply ProduceOne_spec|]. reflexivity.
  - intros p. split.
    + rewrite predicate_calls_pass. now apply count_le_1.
    + etransitivity; [apply predicate_calls_until_match|].
      now apply count_le_1.
Qed.

(** C6: every sequence of operations runs from the initial state without
    a dereference of the null [registeredFuns]; the map has been constructed
    once if the sequence has an operation, whichever it is, and not at all
    if it has none. *)
Theorem storage_constructed_once ops :
  exists s,
    run ops initial = Some (tt, s) /\
    constructions s = match ops with [] => 0 | _ :: _ => 1 end /\
    registeredFuns s = match ops with [] => None | _ :: _ => Some (entries s) end.
Proof.
  destruct (run_spec ops initial) as (s & Hrun & _ & Hptr & Hcon).
  exists s. split; [assumption|].
  destruct ops as [|op ops].
  - simpl in Hrun. injection Hrun as <-. split; reflexivity.
  - split; [assumption|]. apply Hptr. discriminate.
Qed.

(** C7: [registerPtr] returns nothing and, in every state, changes the map
    (constructed first if it was missing) and nothing else: it calls no
    registered function. *)
Theorem registerPtr_frame predicate factory s :
  exists s',
    registerPtr predicate factory s = Some (tt, s') /\
    registeredFuns s' = Some (StdMap.insert (predicate, factory) (entries s)) /\
    constructions s' = constructions (created s) /\
    calls s' = calls s.
Proof.
  eexists. split; [apply registerPtr_spec|]. repeat split.
Qed.

(** C8: as long as nothing has been registered, also when nothing at all
    has run before, [Produce] returns the empty vector and [ProduceOne]
    the null pointer; and every operation, in every state, returns and
    leaves [registeredFuns] pointing to a map. *)
Theorem query_before_registration ops criterion value :
  registrations ops = [] ->
  exists s,
    run ops initial = Some (tt, s) /\
    Produce criterion value s = Some ([], created s) /\
    ProduceOne criterion value s = Some (nullptr, created s) /\
    forall op s0, exists s1,
      perform op s0 = Some (tt, s1) /\ registeredFuns s1 = Some (entries s1).
Proof.
  intros Hnone.
  destruct (run_spec ops initial) as (s & Hrun & Hent & _).
  rewrite Hnone in Hent. simpl in Hent.
  exists s. split; [assumption|].
  rewrite Produce_spec, ProduceOne_spec, Hent. simpl. rewrite log_nil.
  repeat split.
  intros op s0. destruct (perform_spec op s0) as (s1 & H1 & _ & H2 & _).
  now exists s1.
Qed.

(** C9, as the code has it: [ProduceOne] returns the null pointer exactly
    when no entry matches or the factory of the first match, the one it
    calls, returns null; when every factory of an entry returns an object,
    the null pointer means that nothing matched. *)
Theorem ProduceOne_null_result s criterion value :
  exists r s',
    ProduceOne criterion value s = Some (r, s') /\
    (r = nullptr <->
       (forall e, In e (entries s) -> matches criterion e = false) \/
       (exists e, List.find (matches criterion) (entries s) = Some e /\
                  product value e = nullptr)) /\
    ((forall e, In e (entries s) -> product value e <> nullptr) ->
     (r = nullptr <-> forall e, In e (entries s) -> matches criterion e = false)).
Proof.
  do 2 eexists. split; [apply ProduceOne_spec|].
  destruct (List.find (matches criterion) (entries s)) as [e|] eqn:He.
  - assert (Hmatch : ~ forall e, In e (entries s) -> matches criterion e = false).
    { intros Hno. apply find_none_iff in Hno. congruence. }
    split.
    + split.
      * intros Hnull. right. now exists e.
      * intros [Hno|(e' & [= <-] & Hnull)]; [contradiction | assumption].
    + intros Hobj. split.
      * intros Hnull. apply find_some in He as [Hin _].
        now destruct (Hobj e Hin).
      * intros Hno. contradiction.
  - pose proof (proj1 (find_none_iff _ _) He) as Hno. split.
    + split; [now left | reflexivity].
    + intros _. split; [trivial | reflexivity].
Qed.

(** C10: a query asked twice in a row, with the same criterion and input,
    returns the same objects both times, and the entries are what they were
    before the first. *)
Theorem queries_deterministic s criterion value :
  (exists r s1 s2,
     Produce criterion value s = Some (r, s1) /\
     Produce criterion value s1 = Some (r, s2) /\
     entries s1 = entries s /\ entries s2 = entries s) /\
  (exists r s1 s2,
     ProduceOne criterion value s = Some (r, s1) /\
     ProduceOne criterion value s1 = Some (r, s2) /\
     entries s1 = entries s /\ entries s2 = entries s).
Proof.
  split; do 3 eexists.
  - split; [apply Produce_spec|].
    split; [rewrite Produce_spec; reflexivity|].
    split; reflexivity.
  - split; [apply ProduceOne_spec|].
    split; [rewrite ProduceOne_spec; reflexivity|].
    split; reflexivity.
Qed.

End Factory.


(** ** Further properties of the factory *)

Section Further.

Context {I : Instantiation}.

Implicit Types (s : state I) (ops : list (operation I)).
Implicit Types (m : FunctionContainer) (regs : list (address * address)).

(** Two ordered maps with the same pairs are the same map. *)
Lemma ordered_Permutation_eq m : forall m',
  StdMap.ordered m -> StdMap.ordered m' -> Permutation m m' -> m = m'.
Proof.
  induction m as [|x m IH]; intros m' Hm Hm' Hp.
  - apply Permutation_nil in Hp. now subst.
  - destruct m' as [|y m'].
    { apply Permutation_sym, Permutation_nil in Hp. discriminate. }
    assert (Hxy : x = y).
    { assert (Hx : In x (y :: m')) by (apply (Permutation_in _ Hp); now left).
      assert (Hy : In y (x :: m))
        by (apply (Permutation_in _ (Permutation_sym Hp)); now left).
      destruct Hx as [Hx|Hx]; [now symmetry|].
      destruct Hy as [Hy|Hy]; [assumption|].
      pose proof (StdMapFacts.ordered_head _ _ _ _ Hm' (in_map fst _ _ Hx)).
      pose proof (StdMapFacts.ordered_head _ _ _ _ Hm (in_map fst _ _ Hy)).
      lia. }
    subst y. f_equal. apply IH.
    + eapply StdMapFacts.ordered_tail; eassumption.
    + eapply StdMapFacts.ordered_tail; eassumption.
    + eapply Permutation_cons_inv; eassumption.
Qed.

Lemma absorb_distinct regs : forall acc,
  NoDup (map fst (acc ++ regs)) -> fold_left absorb regs acc = acc ++ regs.
Proof.
  induction regs as [|e regs IH]; intros acc Hnd; simpl.
  - now rewrite app_nil_r.
  - assert (Hnew : existsb (Pos.eqb (fst e)) (map fst acc) = false).
    { destruct (existsb _ _) eqn:Hex; [|reflexivity].
      apply absorb_test in Hex. rewrite map_app in Hnd. simpl in Hnd.
      apply NoDup_remove_2 in Hnd. exfalso. apply Hnd.
      apply in_or_app. now left. }
    unfold absorb at 2. rewrite Hnew.
    rewrite IH; rewrite <- app_assoc; [reflexivity | assumption].
Qed.

Lemma absorb_length regs : forall acc,
  length (fold_left absorb regs acc) <= length acc + length regs.
Proof.
  induction regs as [|e regs IH]; intros acc; simpl; [lia|].
  etransitivity; [apply IH|]. unfold absorb.
  destruct (existsb _ _); [lia|]. rewrite length_app. simpl. lia.
Qed.

Lemma registrations_registering regs :
  registrations (registering (I := I) regs) = regs.
Proof.
  induction regs as [|[p f] regs IH]; simpl; congruence.
Qed.

(** The entries of a state reached from the initial state are ordered. *)
Lemma run_ordered ops s :
  run ops initial = Some (tt, s) -> StdMap.ordered (entries s).
Proof.
  intros Hrun. destruct (run_initial ops) as (s0 & Hrun0 & _ & Hord & _).
  rewrite Hrun in Hrun0. now injection Hrun0 as <-.
Qed.

(** X1: after any sequence of operations the registered predicates are
    exactly the keys of the entries, each the key of one entry only, and
    there are no more entries than registrations. *)
Theorem registered_predicates_exact ops :
  exists s,
    run ops initial = Some (tt, s) /\
    NoDup (StdMap.keys (entries s)) /\
    (forall p, In p (StdMap.keys (entries s)) <->
               In p (map fst (registrations ops))) /\
    length (entries s) <= length (registrations ops).
Proof.
  destruct (run_initial ops) as (s & Hrun & Hent & Hord & Hperm).
  exists s. split; [assumption|]. split; [|split].
  - now apply StdMapFacts.ordered_NoDup.
  - intros p. rewrite Hent, keys_insert_all. simpl. tauto.
  - rewrite (Permutation_length Hperm).
    apply (absorb_length (registrations ops) []).
Qed.

(** X2: after [registerPtr] a lookup of the predicate finds the factory it
    was mapped to before, or the new one if it was not registered; the
    lookup of any other predicate is as before; and the number of entries
    grows by one exactly when the predicate was not registered. *)
Theorem registerPtr_lookup ops predicate factory :
  exists s s',
    run ops initial = Some (tt, s) /\
    registerPtr predicate factory s = Some (tt, s') /\
    StdMap.find predicate (entries s') =
      Some (match StdMap.find predicate (entries s) with
            | Some registered => registered
            | None => factory
            end) /\
    (forall q, q <> predicate ->
               StdMap.find q (entries s') = StdMap.find q (entries s)) /\
    length (entries s') =
      match StdMap.find predicate (entries s) with
      | Some _ => length (entries s)
      | None => S (length (entries s))
      end.
Proof.
  destruct (run_initial ops) as (s & Hrun & _ & Hord & _).
  exists s. eexists. split; [assumption|]. split; [apply registerPtr_spec|].
  cbn [entries registeredFuns]. split; [|split].
  - rewrite StdMapFacts.find_insert by assumption. simpl.
    rewrite Pos.eqb_refl. now destruct (StdMap.find predicate (entries s)).
  - intros q Hq. rewrite StdMapFacts.find_insert by assumption. simpl.
    destruct (StdMap.find q (entries s)); [reflexivity|].
    destruct (Pos.eqb_spec predicate q); [congruence | reflexivity].
  - destruct (StdMap.find predicate (entries s)) eqn:Hf.
    + rewrite StdMapFacts.insert_present; [reflexivity | assumption |].
      apply StdMapFacts.find_Some in Hf. now apply (in_map fst) in Hf.
    + apply StdMapFacts.find_None in Hf.
      now rewrite (Permutation_length
                     (StdMapFacts.insert_absent _ (predicate, factory) _ Hf)).
Qed.

(** X3: registrations of different predicates can be made in any order:
    two sequences of operations whose registrations are the same up to
    their order, no predicate being registered twice, leave the same
    entries, and then every query returns the same in both. *)
Theorem registration_order_irrelevant ops ops' :
  NoDup (map fst (registrations ops)) ->
  Permutation (registrations ops) (registrations ops') ->
  exists s s',
    run ops initial = Some (tt, s) /\
    run ops' initial = Some (tt, s') /\
    entries s = entries s' /\
    forall criterion value,
      returned (Produce criterion value s) =
        returned (Produce criterion value s') /\
      returned (ProduceOne criterion value s) =
        returned (ProduceOne criterion value s').
Proof.
  intros Hnd Hperm.
  destruct (run_initial ops) as (s & Hrun & _ & Hord & Hs).
  destruct (run_initial ops') as (s' & Hrun' & _ & Hord' & Hs').
  assert (Hnd' : NoDup (map fst (registrations ops'))).
  { eapply Permutation_NoDup; [|eassumption]. now apply Permutation_map. }
  unfold registration_order in Hs, Hs'.
  rewrite (absorb_distinct _ []) in Hs by assumption.
  rewrite (absorb_distinct _ []) in Hs' by assumption.
  simpl in Hs, Hs'.
  assert (Heq : entries s = entries s').
  { apply ordered_Permutation_eq; [assumption..|].
    rewrite Hs, Hs'. assumption. }
  exists s, s'. repeat split; try assumption.
  - now rewrite !Produce_spec, Heq.
  - now rewrite !ProduceOne_spec, Heq.
Qed.

(** X4: [Produce] returns as many objects as entries match, so that the
    vector is empty exactly when no entry matches, whatever the factories
    return. *)
Theorem Produce_empty_iff_no_match s criterion value :
  exists r s',
    Produce criterion value s = Some (r, s') /\
    length r = length (filter (matches criterion) (entries s)) /\
    (r = [] <-> forall e, In e (entries s) -> matches criterion e = false).
Proof.
  do 2 eexists. split; [apply Produce_spec|]. split; [apply length_map|].
  split.
  - intros Hnil e Hin. apply map_eq_nil in Hnil.
    destruct (matches criterion e) eqn:He; [|reflexivity].
    assert (Hf : In e (filter (matches criterion) (entries s)))
      by (apply filter_In; now split).
    rewrite Hnil in Hf. contradiction.
  - intros Hno.
    destruct (no_match_pass criterion value (entries s) Hno) as (-> & _).
    reflexivity.
Qed.

Lemma find_filter_hd (test : address * address -> bool) m :
  List.find test m = hd_error (filter test m).
Proof.
  induction m as [|x m IH]; simpl; [reflexivity|].
  now destruct (test x).
Qed.

(** X5: [ProduceOne] returns the first of the objects that [Produce]
    returns in the same state, and the null pointer if there is none. *)
Theorem ProduceOne_head_of_Produce s criterion value :
  exists r s1 s2,
    Produce criterion value s = Some (r, s1) /\
    ProduceOne criterion value s = Some (hd nullptr r, s2).
Proof.
  do 3 eexists. split; [apply Produce_spec|].
  rewrite ProduceOne_spec, find_filter_hd.
  destruct (filter (matches criterion) (entries s)); reflexivity.
Qed.

Lemma factory_calls_app (cs1 cs2 : list (call I)) :
  factory_calls (cs1 ++ cs2) = factory_calls cs1 + factory_calls cs2.
Proof. unfold factory_calls. now rewrite filter_app, length_app. Qed.

Lemma factory_calls_visit criterion value e :
  factory_calls (visit criterion value e) =
    if matches criterion e then 1 else 0.
Proof. unfold factory_calls, visit. now destruct (matches criterion e). Qed.

Lemma factory_calls_until_match_le criterion value m :
  factory_calls (visits_until_match criterion value m) <= 1.
Proof.
  induction m as [|e m IH]; [auto|].
  cbn [visits_until_match]. rewrite factory_calls_app, factory_calls_visit.
  destruct (matches criterion e); [|assumption].
  reflexivity.
Qed.

Lemma visits_until_match_prefix criterion value m :
  exists rest,
    flat_map (visit criterion value) m =
      visits_until_match criterion value m ++ rest.
Proof.
  induction m as [|e m (rest & IH)]; [now exists []|].
  cbn [flat_map visits_until_match].
  destruct (matches criterion e).
  - exists (flat_map (visit criterion value) m). now rewrite app_nil_r.
  - exists rest. now rewrite IH, app_assoc.
Qed.

(** X6: the calls [ProduceOne] makes are the first of the calls [Produce]
    makes in the same state, and among them is at most one call of a
    factory. *)
Theorem ProduceOne_calls_prefix s criterion value :
  exists r1 s1 r2 s2 cs rest,
    ProduceOne criterion value s = Some (r1, s1) /\
    Produce criterion value s = Some (r2, s2) /\
    calls s1 = calls s ++ cs /\
    calls s2 = calls s ++ cs ++ rest /\
    factory_calls cs <= 1.
Proof.
  destruct (visits_until_match_prefix criterion value (entries s))
    as (rest & Hrest).
  do 4 eexists. exists (visits_until_match criterion value (entries s)), rest.
  split; [apply ProduceOne_spec|]. split; [apply Produce_spec|].
  split; [reflexivity|]. split.
  - simpl. now rewrite Hrest.
  - apply factory_calls_until_match_le.
Qed.

Lemma factory_calls_pass_length criterion value m :
  factory_calls (flat_map (visit criterion value) m) =
    length (filter (matches criterion) m).
Proof.
  induction m as [|e m IH]; [reflexivity|].
  cbn [flat_map filter]. rewrite factory_calls_app, factory_calls_visit, IH.
  now destruct (matches criterion e).
Qed.

(** X7: in a [Produce] made after any sequence of operations, the
    predicate of every entry is called exactly once, no other predicate is
    called, and there are as many calls of factories as objects returned. *)
Theorem Produce_calls_every_predicate_once ops criterion value :
  exists s r s' cs,
    run ops initial = Some (tt, s) /\
    Produce criterion value s = Some (r, s') /\
    calls s' = calls s ++ cs /\
    (forall p, In p (StdMap.keys (entries s)) -> predicate_calls p cs = 1) /\
    (forall p, ~ In p (StdMap.keys (entries s)) -> predicate_calls p cs = 0) /\
    factory_calls cs = length r.
Proof.
  destruct (run_initial ops) as (s & Hrun & _ & Hord & _).
  exists s. do 3 eexists. split; [assumption|].
  split; [apply Produce_spec|]. split; [reflexivity|].
  split; [|split].
  - intros p Hp. rewrite predicate_calls_pass.
    now apply StdMapFacts.count_present.
  - intros p Hp. rewrite predicate_calls_pass.
    now apply StdMapFacts.count_absent.
  - now rewrite factory_calls_pass_length, length_map.
Qed.

Lemma find_split (test : address * address -> bool) m e :
  List.find test m = Some e ->
  exists before behind,
    m = before ++ e :: behind /\
    (forall x, In x before -> test x = false) /\
    test e = true.
Proof.
  induction m as [|x m IH]; simpl; [discriminate|].
  destruct (test x) eqn:Hx.
  - intros [= <-]. exists [], m. repeat split; [intros ? []| assumption].
  - intros Hfind. destruct (IH Hfind) as (before & behind & -> & Hno & He).
    exists (x :: before), behind. repeat split; [|assumption].
    intros y [<-|Hy]; auto.
Qed.

Lemma visits_until_match_split criterion value before e behind :
  (forall x, In x before -> matches criterion x = false) ->
  matches criterion e = true ->
  visits_until_match criterion value (before ++ e :: behind) =
    asked criterion before ++
    [CallPredicate (fst e) criterion; CallFactory (snd e) value].
Proof.
  intros Hno He. induction before as [|x before IH].
  - cbn [app asked map visits_until_match]. unfold visit.
    rewrite He. reflexivity.
  - assert (Hx : matches criterion x = false) by (apply Hno; now left).
    cbn [app asked map visits_until_match]. unfold visit at 1.
    rewrite Hx. cbn [app]. f_equal. apply IH.
    intros y Hy. apply Hno. now right.
Qed.

(** X8: when some entry matches, [ProduceOne] calls the predicates of the
    entries up to the first match, in their order, then the factory of that
    entry, whose object it returns, and nothing after: the entries behind
    the first match are neither tested nor used. *)
Theorem ProduceOne_stops_at_first_match s criterion value e :
  List.find (matches criterion) (entries s) = Some e ->
  exists before behind,
    entries s = before ++ e :: behind /\
    (forall x, In x before -> matches criterion x = false) /\
    ProduceOne criterion value s =
      Some (product value e,
            log (asked criterion before ++
                 [CallPredicate (fst e) criterion; CallFactory (snd e) value])
                (created s)).
Proof.
  intros Hfind.
  destruct (find_split _ _ _ Hfind) as (before & behind & Hsplit & Hno & He).
  exists before, behind. split; [assumption|]. split; [assumption|].
  rewrite ProduceOne_spec, Hfind, Hsplit.
  now rewrite visits_until_match_split.
Qed.

(** X9: an entry stays: once a predicate is mapped to a factory, it is
    mapped to that factory after any further operations, registrations
    under the same predicate included. *)
Theorem registered_entry_persists ops1 ops2 s1 predicate factory :
  run ops1 initial = Some (tt, s1) ->
  StdMap.find predicate (entries s1) = Some factory ->
  exists s2,
    run ops2 s1 = Some (tt, s2) /\
    StdMap.find predicate (entries s2) = Some factory.
Proof.
  intros Hrun Hfind.
  destruct (run_spec ops1 initial) as (s & Hrun1 & Hent1 & _).
  rewrite Hrun in Hrun1. injection Hrun1 as <-.
  destruct (run_spec ops2 s1) as (s2 & Hrun2 & Hent2 & _).
  exists s2. split; [assumption|].
  rewrite Hent2, find_insert_all, Hfind; [reflexivity|].
  now apply (run_ordered ops1).
Qed.

(** X10: queries leave no trace in the entries: a sequence of operations
    leaves the entries that its registrations alone, made in the same
    order, leave. *)
Theorem queries_transparent ops :
  exists s s',
    run ops initial = Some (tt, s) /\
    run (registering (registrations ops)) initial = Some (tt, s') /\
    entries s = entries s'.
Proof.
  destruct (run_spec ops initial) as (s & Hrun & Hent & _).
  destruct (run_spec (registering (registrations ops)) initial)
    as (s' & Hrun' & Hent' & _).
  exists s, s'. split; [assumption|]. split; [assumption|].
  now rewrite Hent, Hent', registrations_registering.
Qed.

Lemma filter_insert_unmatched (test : address * address -> bool) kv m :
  test kv = false -> filter test (StdMap.insert kv m) = filter test m.
Proof.
  intros Hkv. induction m as [|x m IH]; simpl.
  - now rewrite Hkv.
  - destruct (fst kv <? fst x)%positive; simpl.
    + now rewrite Hkv.
    + destruct (fst x <? fst kv)%positive; simpl; [|reflexivity].
      now rewrite IH.
Qed.

(** X11: the registration of a predicate that does not hold for a
    criterion changes nothing to what the queries return for that
    criterion. *)
Theorem unmatched_registration_invisible s predicate factory criterion value :
  predicate_code predicate criterion = false ->
  exists s',
    registerPtr predicate factory s = Some (tt, s') /\
    returned (Produce criterion value s') =
      returned (Produce criterion value s) /\
    returned (ProduceOne criterion value s') =
      returned (ProduceOne criterion value s).
Proof.
  intros Hp. eexists. split; [apply registerPtr_spec|].
  rewrite !Produce_spec, !ProduceOne_spec, !find_filter_hd.
  cbn [entries registeredFuns returned option_map fst].
  now rewrite filter_insert_unmatched.
Qed.

(** X12: the registration of a predicate that was not registered and
    holds for a criterion adds one object to what [Produce] returns for
    that criterion, the object of the new factory, and takes none away. *)
Theorem matching_registration_adds_one s predicate factory criterion value :
  ~ In predicate (StdMap.keys (entries s)) ->
  predicate_code predicate criterion = true ->
  exists s' r t r' t',
    registerPtr predicate factory s = Some (tt, s') /\
    Produce criterion value s = Some (r, t) /\
    Produce criterion value s' = Some (r', t') /\
    Permutation r' (factory_code factory value :: r).
Proof.
  intros Hnew Hp. do 5 eexists.
  split; [apply registerPtr_spec|]. split; [apply Produce_spec|].
  split; [apply Produce_spec|].
  cbn [entries registeredFuns].
  pose proof (StdMapFacts.insert_absent _ (predicate, factory) _ Hnew) as Hperm.
  apply (Permutation_filter (matches criterion)) in Hperm.
  apply (Permutation_map (product value)) in Hperm.
  simpl in Hperm. unfold matches at 2 in Hperm. simpl in Hperm.
  rewrite Hp in Hperm. exact Hperm.
Qed.

Lemma find_insert_matching (test : address * address -> bool) kv m :
  StdMap.ordered m -> ~ In (fst kv) (StdMap.keys m) -> test kv = true ->
  List.find test (StdMap.insert kv m) =
    match List.find test m with
    | Some e => if (fst kv <? fst e)%positive then Some kv else Some e
    | None => Some kv
    end.
Proof.
  intros Hm Hnew Hkv. induction m as [|x m IH].
  - simpl. now rewrite Hkv.
  - cbn [StdMap.insert].
    pose proof (StdMapFacts.ordered_tail _ _ _ Hm) as Htl.
    destruct (Pos.ltb_spec (fst kv) (fst x)) as [Hlt|Hge].
    + cbn [List.find]. rewrite Hkv.
      destruct (test x) eqn:Hx.
      * destruct (Pos.ltb_spec (fst kv) (fst x)); [reflexivity | lia].
      * destruct (List.find test m) as [e|] eqn:He; [|reflexivity].
        apply find_some in He as [Hin _].
        pose proof (StdMapFacts.ordered_head _ _ _ _ Hm (in_map fst _ _ Hin)).
        destruct (Pos.ltb_spec (fst kv) (fst e)); [reflexivity | lia].
    + destruct (Pos.ltb_spec (fst x) (fst kv)) as [Hlt|Hge'].
      * cbn [List.find]. destruct (test x) eqn:Hx.
        -- destruct (Pos.ltb_spec (fst kv) (fst x)); [lia | reflexivity].
        -- apply IH; [assumption|]. simpl in Hnew. tauto.
      * exfalso. apply Hnew. left. lia.
Qed.

(** X13: a predicate that was not registered and holds for a criterion
    is, once registered, the one [ProduceOne] selects for that criterion
    exactly when its address is below the address of the predicate selected
    before, or when none matched before. *)
Theorem new_registration_precedence ops predicate factory criterion value :
  ~ In predicate (map fst (registrations ops)) ->
  predicate_code predicate criterion = true ->
  exists s s' r t r' t',
    run ops initial = Some (tt, s) /\
    registerPtr predicate factory s = Some (tt, s') /\
    ProduceOne criterion value s = Some (r, t) /\
    ProduceOne criterion value s' = Some (r', t') /\
    r' = match List.find (matches criterion) (entries s) with
         | Some e =>
             if (predicate <? fst e)%positive
             then factory_code factory value
             else r
         | None => factory_code factory value
         end.
Proof.
  intros Hnew Hp.
  destruct (run_initial ops) as (s & Hrun & Hent & Hord & _).
  assert (Hkey : ~ In predicate (StdMap.keys (entries s))).
  { rewrite Hent, keys_insert_all. simpl. tauto. }
  exists s. do 5 eexists. split; [assumption|].
  split; [apply registerPtr_spec|]. split; [apply ProduceOne_spec|].
  split; [apply ProduceOne_spec|].
  cbn [entries registeredFuns].
  rewrite (find_insert_matching (matches criterion) (predicate, factory))
    by assumption.
  cbn [fst].
  destruct (List.find (matches criterion) (entries s)) as [e|];
    [|reflexivity].
  now destruct (predicate <? fst e)%positive.
Qed.

End Further.

(** ** The program of shapes *)

#[local] Existing Instance Shapes.shapes.

(** Without [create] the first access would be to a null pointer. *)
Lemma access_before_construction :
  deref initial = None /\
  insert_registered (2, 5)%positive initial = None.
Proof. split; reflexivity. Qed.

(** C1 at work: the square predicate (address 2) is registered before
    the predicate for at most four sides (address 1); for four sides both
    hold and the entry of address 1 is chosen. *)
Lemma ProduceOne_least_address_witness :
  (exists e, In e (registrations [Register 2 5; Register 1 4]) /\
             matches 4 e = true) /\
  exists s e s',
    run [Register 2 5; Register 1 4] initial = Some (tt, s) /\
    ProduceOne 4 7 s = Some (product 7 e, s') /\
    In e (registration_order [(2, 5); (1, 4)]%positive) /\
    matches 4 e = true /\
    forall e', In e' (registration_order [(2, 5); (1, 4)]%positive) ->
               matches 4 e' = true -> (fst e <= fst e')%positive.
Proof.
  assert (H : exists e, In e (registrations [Register 2 5; Register 1 4]) /\
                        matches 4 e = true).
  { exists (2, 5)%positive. split; [simpl; auto | reflexivity]. }
  split; [exact H|].
  exact (ProduceOne_least_address [Register 2 5; Register 1 4] 4 7 H).
Defined.

(** C1 as stated fails: the square was registered first and matches, yet
    [ProduceOne] returns the circle. *)
Lemma ProduceOne_registration_order_counterexample :
  (exists e, In e (registrations [Register 2 5; Register 1 4]) /\
             matches 4 e = true) /\
  spec_ProduceFirst [(2, 5); (1, 4)]%positive 4 7 = Some (Shapes.Square 7) /\
  Shapes.after [Register 2 5; Register 1 4] (ProduceOne 4 7)
    = Some (Some (Shapes.Circle 7)) /\
  Shapes.after [Register 2 5; Register 1 4] (ProduceOne 4 7)
    <> Some (spec_ProduceFirst [(2, 5); (1, 4)]%positive 4 7).
Proof.
  split; [|split; [|split]].
  - exists (2, 5)%positive. split; [simpl; auto | reflexivity].
  - reflexivity.
  - reflexivity.
  - discriminate.
Qed.

(** C2 as stated fails: registered as square, then circle, the objects
    come back as circle, then square. *)
Lemma Produce_registration_order_counterexample :
  spec_ProduceAll [(2, 5); (1, 4)]%positive 4 7
    = [Some (Shapes.Square 7); Some (Shapes.Circle 7)] /\
  Shapes.after [Register 2 5; Register 1 4] (Produce 4 7)
    = Some [Some (Shapes.Circle 7); Some (Shapes.Square 7)] /\
  Shapes.after [Register 2 5; Register 1 4] (Produce 4 7)
    <> Some (spec_ProduceAll [(2, 5); (1, 4)]%positive 4 7).
Proof.
  split; [|split].
  - reflexivity.
  - reflexivity.
  - discriminate.
Qed.

(** C3 at work: the square predicate is registered with the square
    factory; registering it again with the circle factory changes
    nothing. *)
Lemma registerPtr_duplicate_witness :
  run [Register 2 5] initial = Some (tt, Shapes.squares) /\
  In 2%positive (StdMap.keys (entries Shapes.squares)) /\
  exists first,
    first_registered 2 (registrations [Register 2 5]) = Some first /\
    registerPtr 2 4 Shapes.squares = Some (tt, Shapes.squares) /\
    StdMap.count 2 (entries Shapes.squares) = 1 /\
    StdMap.find 2 (entries Shapes.squares) = Some first.
Proof.
  assert (Hrun : run [Register 2 5] initial = Some (tt, Shapes.squares))
    by reflexivity.
  assert (Hin : In 2%positive (StdMap.keys (entries Shapes.squares)))
    by (simpl; auto).
  split; [exact Hrun|]. split; [exact Hin|].
  exact (registerPtr_duplicate_noop [Register 2 5] Shapes.squares 2 4 Hrun Hin).
Defined.

(** C4 at work: only squares are registered and a shape of three sides
    is asked for. *)
Lemma no_match_results_witness :
  (forall e, In e (entries Shapes.squares) -> matches 3 e = false) /\
  Produce 3 7 Shapes.squares
    = Some ([], log [CallPredicate 2 3] Shapes.squares) /\
  ProduceOne 3 7 Shapes.squares
    = Some (nullptr, log [CallPredicate 2 3] Shapes.squares) /\
  forall b : Shapes.shape, @nullptr Shapes.shape <> Some b.
Proof.
  assert (H : forall e, In e (entries Shapes.squares) -> matches 3 e = false)
    by (intros e [<-|[]]; reflexivity).
  split; [exact H|].
  exact (no_match_results Shapes.squares 3 7 H).
Defined.

(** Two entries sharing the factory of circles, the second of which does
    not match three sides: the factory is called once, for the first. *)
Lemma shared_factory_calls :
  option_map (fun r => calls (snd r))
    (Produce 3 7 {| registeredFuns := Some [(1, 4); (2, 4)]%positive;
                    constructions := 1;
                    calls := [] |})
  = Some [CallPredicate 1 3; CallFactory 4 7; CallPredicate 2 3].
Proof. reflexivity. Qed.

(** C8 at work: the first operation of the program is a query. *)
Lemma query_before_registration_witness :
  registrations [] = [] /\
  exists s,
    run [] initial = Some (tt, s) /\
    Produce 4 7 s = Some ([], created s) /\
    ProduceOne 4 7 s = Some (nullptr, created s) /\
    forall op s0, exists s1,
      perform op s0 = Some (tt, s1) /\
      registeredFuns s1 = Some (entries s1).
Proof.
  split; [reflexivity|].
  exact (query_before_registration [] 4 7 eq_refl).
Defined.

(** C9 as stated fails: for four sides the entry of address 2 matches and
    its factory (address 6) returns null, yet [ProduceOne] returns the
    circle of the entry of address 1, not the null pointer it returns for
    five sides, where nothing matches. *)
Lemma ProduceOne_null_counterexample :
  (exists e, In e (registrations [Register 1 4; Register 2 6]) /\
             matches 4 e = true /\
             product 7 e = nullptr) /\
  Shapes.after [Register 1 4; Register 2 6] (ProduceOne 5 7)
    = Some nullptr /\
  Shapes.after [Register 1 4; Register 2 6] (ProduceOne 4 7)
    = Some (Some (Shapes.Circle 7)) /\
  Shapes.after [Register 1 4; Register 2 6] (ProduceOne 4 7)
    <> Shapes.after [Register 1 4; Register 2 6] (ProduceOne 5 7).
Proof.
  split; [|split; [|split]].
  - exists (2, 6)%positive. split; [simpl; auto | split; reflexivity].
  - reflexivity.
  - reflexivity.
  - discriminate.
Qed.

(** C9 at work: the only entry matches four sides and its factory returns
    null; the query returns the null pointer, as it does when nothing
    matches. *)
Lemma ProduceOne_null_result_witness :
  exists r s',
    ProduceOne 4 7 Shapes.nothings = Some (r, s') /\
    (r = nullptr <->
       (forall e, In e (entries Shapes.nothings) -> matches 4 e = false) \/
       (exists e, List.find (matches 4) (entries Shapes.nothings) = Some e /\
                  product 7 e = nullptr)) /\
    ((forall e, In e (entries Shapes.nothings) -> product 7 e <> nullptr) ->
     (r = nullptr <->
      forall e, In e (entries Shapes.nothings) -> matches 4 e = false)).
Proof.
  exact (ProduceOne_null_result Shapes.nothings 4 7).
Defined.

(** ** The program of shapes, further *)

(** X3 at work: squares then circles, or circles, a query, then squares. *)
Lemma registration_order_irrelevant_witness :
  NoDup (map fst (registrations [Register 2 5; Register 1 4])) /\
  Permutation (registrations [Register 2 5; Register 1 4])
              (registrations [Register 1 4; QueryAll 4 7; Register 2 5]) /\
  exists s s',
    run [Register 2 5; Register 1 4] initial = Some (tt, s) /\
    run [Register 1 4; QueryAll 4 7; Register 2 5] initial = Some (tt, s') /\
    entries s = entries s' /\
    forall criterion value,
      returned (Produce criterion value s) =
        returned (Produce criterion value s') /\
      returned (ProduceOne criterion value s) =
        returned (ProduceOne criterion value s').
Proof.
  assert (Hnd : NoDup (map fst (registrations [Register 2 5; Register 1 4]))).
  { simpl. repeat constructor; simpl; intuition discriminate. }
  assert (Hperm :
    Permutation (registrations [Register 2 5; Register 1 4])
                (registrations [Register 1 4; QueryAll 4 7; Register 2 5]))
    by apply perm_swap.
  split; [exact Hnd|]. split; [exact Hperm|].
  exact (registration_order_irrelevant
           [Register 2 5; Register 1 4]
           [Register 1 4; QueryAll 4 7; Register 2 5] Hnd Hperm).
Defined.

(** X8 at work: with circles and squares registered and four sides asked
    for, the entry of the circles matches first; the predicate for squares
    is not called. *)
Lemma ProduceOne_stops_at_first_match_witness :
  List.find (matches 4) (entries Catalogue.both) = Some (1, 4)%positive /\
  exists before behind,
    entries Catalogue.both = before ++ (1, 4)%positive :: behind /\
    (forall x, In x before -> matches 4 x = false) /\
    ProduceOne 4 7 Catalogue.both =
      Some (product 7 (1, 4)%positive,
            log (asked 4 before ++ [CallPredicate 1 4; CallFactory 4 7])
                (created Catalogue.both)).
Proof.
  split; [reflexivity|].
  exact (ProduceOne_stops_at_first_match
           Catalogue.both 4 7 (1, 4)%positive eq_refl).
Defined.

(** X9 at work: the predicate for squares keeps the factory of squares
    when it is registered again with the factory of circles. *)
Lemma registered_entry_persists_witness :
  run [Register 2 5] initial = Some (tt, Shapes.squares) /\
  StdMap.find 2 (entries Shapes.squares) = Some 5%positive /\
  exists s2,
    run [Register 2 4; QueryOne 4 7] Shapes.squares = Some (tt, s2) /\
    StdMap.find 2 (entries s2) = Some 5%positive.
Proof.
  split; [reflexivity|]. split; [reflexivity|].
  exact (registered_entry_persists
           [Register 2 5] [Register 2 4; QueryOne 4 7]
           Shapes.squares 2 5 eq_refl eq_refl).
Defined.

(** X11 at work: the predicate for no sides does not hold for four. *)
Lemma unmatched_registration_invisible_witness :
  predicate_code 3 4 = false /\
  exists s',
    registerPtr 3 4 Shapes.squares = Some (tt, s') /\
    returned (Produce 4 7 s') = returned (Produce 4 7 Shapes.squares) /\
    returned (ProduceOne 4 7 s') = returned (ProduceOne 4 7 Shapes.squares).
Proof.
  split; [reflexivity|].
  exact (unmatched_registration_invisible Shapes.squares 3 4 4 7 eq_refl).
Defined.

(** X12 at work: circles are registered beside squares. *)
Lemma matching_registration_adds_one_witness :
  ~ In 1%positive (StdMap.keys (entries Shapes.squares)) /\
  predicate_code 1 4 = true /\
  exists s' r t r' t',
    registerPtr 1 4 Shapes.squares = Some (tt, s') /\
    Produce 4 7 Shapes.squares = Some (r, t) /\
    Produce 4 7 s' = Some (r', t') /\
    Permutation r' (factory_code 4 7 :: r).
Proof.
  assert (Hnew : ~ In 1%positive (StdMap.keys (entries Shapes.squares)))
    by (simpl; intuition discriminate).
  split; [exact Hnew|]. split; [reflexivity|].
  exact (matching_registration_adds_one Shapes.squares 1 4 4 7 Hnew eq_refl).
Defined.

(** X13 at work: circles, registered after squares under a predicate of
    lower address, are selected from then on. *)
Lemma new_registration_precedence_witness :
  ~ In 1%positive (map fst (registrations [Register 2 5])) /\
  predicate_code 1 4 = true /\
  exists s s' r t r' t',
    run [Register 2 5] initial = Some (tt, s) /\
    registerPtr 1 4 s = Some (tt, s') /\
    ProduceOne 4 7 s = Some (r, t) /\
    ProduceOne 4 7 s' = Some (r', t') /\
    r' = match List.find (matches 4) (entries s) with
         | Some e => if (1 <? fst e)%positive then factory_code 4 7 else r
         | None => factory_code 4 7
         end.
Proof.
  assert (Hnew : ~ In 1%positive (map fst (registrations [Register 2 5])))
    by (simpl; intuition discriminate).
  split; [exact Hnew|]. split; [reflexivity|].
  exact (new_registration_precedence [Register 2 5] 1 4 4 7 Hnew eq_refl).
Defined.
